(** * Validation report tooling: the metrics collector and the report builder

    A shallow embedding of [static/js/performanceMetrics.js] (class
    [PerformanceMetrics]) and [static/js/htmlReport.js] (class
    [HTMLReportGenerator]), and the properties their specification states.

    Modelling conventions.
    - JavaScript numbers are read as exact rationals ([Q]): finite values,
      no rounding.  [NaN] and the infinities are outside the model.
    - Objects that the code shares by reference (the interaction records and
      the [interactions] array) live in an explicit store and are named by
      locations; plain values are kept by value.
    - A JavaScript object used as a dictionary is a [gmap] over its own
      string keys (keys are ordinary names, not names of members inherited
      from [Object.prototype]).
    - Readings of the environment ([performance.now()],
      [new Date().toISOString()]) are arguments of the call that reads them. *)

From Stdlib Require Import QArith Lqa String Ascii DecimalString.
From stdpp Require Import gmap strings list fin_maps.

(** Locations of the store. *)
Abbreviation loc := positive.

(** ** The metrics collector *)
Module PerformanceMetrics.

(** The record built by [startInteraction]; [endTime] and [duration] are
    [null] until [endInteraction] fills them in. *)
Record Interaction := mkInteraction {
  name : string;
  startTime : Q;
  endTime : option Q;
  duration : option Q
}.

(** [this.metrics]: the [interactions] field is a reference to an array of
    references to interaction records. *)
Record Metrics := mkMetrics {
  interactions : loc;
  componentLoadTimes : gmap string (list Q);
  elementTimings : gmap string (list Q)
}.

(** The store (interaction records, arrays of references to them) together
    with the fields of the collector object. *)
Record state := mkState {
  objects : gmap loc Interaction;
  arrays : gmap loc (list loc);
  metrics : Metrics;
  currentInteraction : option loc
}.

(** [ToNumber] on a field that holds a number or [null]. *)
Definition ToNumber (v : option Q) : Q := default 0%Q v.

(** [constructor()], run in a store [objs], [arrs]: allocates the empty
    [interactions] array. *)
Definition constructor (objs : gmap loc Interaction) (arrs : gmap loc (list loc)) : state :=
  let a := fresh (dom arrs) in
  {| objects := objs;
     arrays := <[a := []]> arrs;
     metrics := {| interactions := a; componentLoadTimes := ∅; elementTimings := ∅ |};
     currentInteraction := None |}.

(** [startInteraction(name)]: a new record replaces the in-flight one; the
    reference to it is returned. *)
Definition startInteraction (nm : string) (now : Q) (s : state) : loc * state :=
  let l := fresh (dom (objects s)) in
  (l,
   {| objects := <[l := {| name := nm; startTime := now; endTime := None; duration := None |}]> (objects s);
      arrays := arrays s;
      metrics := metrics s;
      currentInteraction := Some l |}).

Definition set_endTime (v : option Q) (i : Interaction) : Interaction :=
  {| name := name i; startTime := startTime i; endTime := v; duration := duration i |}.

Definition set_duration (v : option Q) (i : Interaction) : Interaction :=
  {| name := name i; startTime := startTime i; endTime := endTime i; duration := v |}.

Definition update_object (l : loc) (f : Interaction → Interaction) (s : state) : state :=
  {| objects := alter f l (objects s);
     arrays := arrays s;
     metrics := metrics s;
     currentInteraction := currentInteraction s |}.

(** [arr.push(l)] on the array at [a]. *)
Definition array_push (a : loc) (l : loc) (s : state) : state :=
  {| objects := objects s;
     arrays := alter (λ elems, elems ++ [l]) a (arrays s);
     metrics := metrics s;
     currentInteraction := currentInteraction s |}.

Definition set_currentInteraction (v : option loc) (s : state) : state :=
  {| objects := objects s;
     arrays := arrays s;
     metrics := metrics s;
     currentInteraction := v |}.

(** [endInteraction()]: the four statements of the guarded block, in order. *)
Definition endInteraction (now : Q) (s : state) : state :=
  match currentInteraction s with
  | Some l =>
      let s1 := update_object l (set_endTime (Some now)) s in
      let s2 := update_object l
                  (λ i, set_duration (Some (ToNumber (endTime i) - startTime i)%Q) i) s1 in
      let s3 := array_push (interactions (metrics s2)) l s2 in
      set_currentInteraction None s3
  | None => s
  end.

(** The body shared by [recordComponentLoad] and [recordElementTiming]:
    create the series when the key is missing, then push. *)
Definition record_sample (key : string) (d : Q) (m : gmap string (list Q)) : gmap string (list Q) :=
  let m1 := match m !! key with
            | None => <[key := []]> m
            | Some _ => m
            end in
  alter (λ series, series ++ [d]) key m1.

Definition recordComponentLoad (componentName : string) (d : Q) (s : state) : state :=
  {| objects := objects s;
     arrays := arrays s;
     metrics := {| interactions := interactions (metrics s);
                   componentLoadTimes := record_sample componentName d (componentLoadTimes (metrics s));
                   elementTimings := elementTimings (metrics s) |};
     currentInteraction := currentInteraction s |}.

Definition recordElementTiming (elementName : string) (d : Q) (s : state) : state :=
  {| objects := objects s;
     arrays := arrays s;
     metrics := {| interactions := interactions (metrics s);
                   componentLoadTimes := componentLoadTimes (metrics s);
                   elementTimings := record_sample elementName d (elementTimings (metrics s)) |};
     currentInteraction := currentInteraction s |}.

(** The summary object returned by [getStats]. *)
Record Stats := mkStats {
  min : Q;
  max : Q;
  avg : Q;
  count : nat
}.

Definition min2 (a b : Q) : Q := if Qle_bool a b then a else b.
Definition max2 (a b : Q) : Q := if Qle_bool a b then b else a.

(** [Math.min(x, ...xs)] and [Math.max(x, ...xs)] on a non-empty argument
    list (on an empty one they are the infinities; [getStats] never calls
    them so). *)
Definition Math_min (x : Q) (xs : list Q) : Q := fold_left min2 xs x.
Definition Math_max (x : Q) (xs : list Q) : Q := fold_left max2 xs x.

(** [data.reduce(f, init)]. *)
Definition reduce (f : Q → Q → Q) (init : Q) (data : list Q) : Q := fold_left f data init.

(** [getStats(data)]; [None] as argument is a missing ([undefined], [null])
    series, [None] as result is [null]. *)
Definition getStats (data : option (list Q)) : option Stats :=
  match data with
  | None => None
  | Some [] => None
  | Some ((x :: xs) as l) =>
      Some {| min := Math_min x xs;
              max := Math_max x xs;
              avg := (reduce (λ a b, a + b) 0 l / inject_Z (Z.of_nat (length l)))%Q;
              count := length l |}
  end.

(** The object returned by [generatePerformanceReport]: [interactions] holds
    the reference found in [this.metrics.interactions]; the two statistics
    objects are built by the call. *)
Record PerformanceReport := mkReport {
  report_interactions : loc;
  componentStats : gmap string (option Stats);
  elementStats : gmap string (option Stats);
  timestamp : string
}.

(** The loop [for (const [name, times] of Object.entries(series)) out[name] =
    this.getStats(times)]. *)
Definition stats_of_entries (series : gmap string (list Q)) : gmap string (option Stats) :=
  map_fold (λ nm times out, <[nm := getStats (Some times)]> out) ∅ series.

Definition generatePerformanceReport (ts : string) (s : state) : PerformanceReport * state :=
  let componentStats := stats_of_entries (componentLoadTimes (metrics s)) in
  let elementStats := stats_of_entries (elementTimings (metrics s)) in
  ({| report_interactions := interactions (metrics s);
      componentStats := componentStats;
      elementStats := elementStats;
      timestamp := ts |},
   s).

(** Reading through references: the interaction history of a collector, and
    the sequence a report's [interactions] field denotes in a given state. *)
Definition deref_array (a : loc) (s : state) : option (list loc) := arrays s !! a.

Definition history (s : state) : option (list loc) :=
  deref_array (interactions (metrics s)) s.

Definition report_history (r : PerformanceReport) (s : state) : option (list loc) :=
  deref_array (report_interactions r) s.

(** The records behind a sequence of references. *)
Definition deref_all (ls : list loc) (s : state) : list (option Interaction) :=
  (λ l, objects s !! l) <$> ls.

(** Calls on a collector, each with the environment readings it makes. *)
Inductive call :=
| StartInteraction (nm : string) (now : Q)
| EndInteraction (now : Q)
| RecordComponentLoad (componentName : string) (d : Q)
| RecordElementTiming (elementName : string) (d : Q)
| GeneratePerformanceReport (ts : string).

Definition step (s : state) (c : call) : state :=
  match c with
  | StartInteraction nm now => snd (startInteraction nm now s)
  | EndInteraction now => endInteraction now s
  | RecordComponentLoad nm d => recordComponentLoad nm d s
  | RecordElementTiming nm d => recordElementTiming nm d s
  | GeneratePerformanceReport ts => snd (generatePerformanceReport ts s)
  end.

Definition run (cs : list call) (s : state) : state := fold_left step cs s.

(** The clock readings of a sequence of calls, and what it means for them to
    come from a monotonic clock that last read [t]. *)
Definition reading (c : call) : option Q :=
  match c with
  | StartInteraction _ now | EndInteraction now => Some now
  | _ => None
  end.

Fixpoint monotonic (t : Q) (cs : list call) : Prop :=
  match cs with
  | [] => True
  | c :: cs' =>
      match reading c with
      | Some now => (t <= now)%Q ∧ monotonic now cs'
      | None => monotonic t cs'
      end
  end.

(** Reference notions the statistics are compared with. *)
Definition Qsum (l : list Q) : Q := fold_right Qplus 0%Q l.

Definition is_minimum (m : Q) (l : list Q) : Prop := m ∈ l ∧ ∀ x, x ∈ l → (m <= x)%Q.
Definition is_maximum (m : Q) (l : list Q) : Prop := m ∈ l ∧ ∀ x, x ∈ l → (x <= m)%Q.

(** An interaction record as [endInteraction] leaves it. *)
Definition finalized (i : Interaction) : Prop :=
  ∃ e, endTime i = Some e ∧ duration i = Some (e - startTime i)%Q
       ∧ (startTime i <= e)%Q ∧ (0 <= e - startTime i)%Q.


(** Well-formed states: every reference the collector holds points into the
    store. *)
Definition wf (s : state) : Prop :=
  (∃ hist, history s = Some hist ∧ ∀ l, l ∈ hist → l ∈ dom (objects s))
  ∧ (∀ l, currentInteraction s = Some l → l ∈ dom (objects s)).

(** What holds of a collector whose clock last read [t]: the history is a
    sequence of finalized records, and the in-flight record, if any, started
    no later than [t]. *)
Definition clock_invariant (t : Q) (s : state) : Prop :=
  (∃ hist, history s = Some hist
           ∧ ∀ l, l ∈ hist → ∃ i, objects s !! l = Some i ∧ finalized i)
  ∧ (∀ l, currentInteraction s = Some l →
          ∃ i, objects s !! l = Some i ∧ (startTime i <= t)%Q).

(** The value a report denotes in a state, references followed, capture
    timestamp left out: what a deep comparison of two reports looks at. *)
Record ReportValue := mkReportValue {
  value_interactions : option (list (option Interaction));
  value_componentStats : gmap string (option Stats);
  value_elementStats : gmap string (option Stats)
}.

Definition deep_value (r : PerformanceReport) (s : state) : ReportValue :=
  {| value_interactions := (λ ls, deref_all ls s) <$> report_history r s;
     value_componentStats := componentStats r;
     value_elementStats := elementStats r |}.




(** What every reachable state satisfies about the in-flight record: it is
    in the store, it is no entry of the history, and its [endTime] and
    [duration] are still [null]. *)
Definition inflight_invariant (s : state) : Prop :=
  (∃ hist, history s = Some hist ∧ ∀ l, l ∈ hist → l ∈ dom (objects s))
  ∧ (∀ l, currentInteraction s = Some l →
          (∀ hist, history s = Some hist → l ∉ hist)
          ∧ ∃ i, objects s !! l = Some i ∧ endTime i = None ∧ duration i = None).

End PerformanceMetrics.

(** ** The report builder *)
Module HTMLReportGenerator.

(** An entry of [this.screenshots]. *)
Record Screenshot := mkScreenshot {
  name : string;
  dataUrl : string;
  timestamp : string
}.

(** The validation results object: four counts. *)
Record ValidationResults := mkResults {
  total : Z;
  successful : Z;
  failed : Z;
  skipped : Z
}.

(** The fields of the builder; [None] is [null]. *)
Record state := mkState {
  screenshots : list Screenshot;
  performanceData : option PerformanceMetrics.PerformanceReport;
  validationResults : option ValidationResults
}.

(** How a call completes: with a value, or by throwing. *)
Inductive error :=
| TypeError.

Inductive completion (A : Type) :=
| Return (a : A)
| Throw (e : error).

Arguments Return {A} a.
Arguments Throw {A} e.

Definition constructor : state :=
  {| screenshots := []; performanceData := None; validationResults := None |}.

Definition addScreenshot (nm : string) (url : string) (ts : string) (g : state) : state :=
  {| screenshots := screenshots g ++ [{| name := nm; dataUrl := url; timestamp := ts |}];
     performanceData := performanceData g;
     validationResults := validationResults g |}.

Definition setPerformanceData (data : PerformanceMetrics.PerformanceReport) (g : state) : state :=
  {| screenshots := screenshots g;
     performanceData := Some data;
     validationResults := validationResults g |}.

Definition setValidationResults (results : ValidationResults) (g : state) : state :=
  {| screenshots := screenshots g;
     performanceData := performanceData g;
     validationResults := Some results |}.

(** The text a substitution [${n}] gives for an integer count: its decimal
    digits (counts stay far below the magnitude at which JavaScript turns to
    exponent notation). *)
Definition ToString (n : Z) : string := NilZero.string_of_int (Z.to_int n).

(** The double quote character, as a string. *)
Definition dq : string := String (ascii_of_nat 34) EmptyString.

(** The fixed text of the template literal of [generateReportHTML], cut at its
    substitutions.  [page_head] runs up to the validation summary. *)
Definition page_head : string :=
  "
      <!DOCTYPE html>
      <html>
      <head>
        <title>Validation Report</title>
        <link href=" +:+ dq +:+ "https://cdn.jsdelivr.net/npm/bootstrap@5.3.0/dist/css/bootstrap.min.css" +:+ dq +:+ " rel=" +:+ dq +:+ "stylesheet" +:+ dq +:+ ">
        <script src=" +:+ dq +:+ "https://cdn.jsdelivr.net/npm/chart.js" +:+ dq +:+ "></script>
        <style>
          .report-section { margin-bottom: 40px; }
          .screenshot-thumbnail { 
            cursor: pointer; 
            transition: transform 0.2s;
            margin: 5px;
          }
          .screenshot-thumbnail:hover { transform: scale(1.05); }
          .modal-image { max-width: 100%; }
        </style>
      </head>
      <body>
        <div class=" +:+ dq +:+ "container mt-4" +:+ dq +:+ ">
          <h1 class=" +:+ dq +:+ "text-center mb-4" +:+ dq +:+ ">Validation Report</h1>
          
".

(** The validation summary section, up to the cell of [total]. *)
Definition summary_open : string :=
  "          <div class=" +:+ dq +:+ "report-section" +:+ dq +:+ ">
            <h2>Validation Summary</h2>
            <div class=" +:+ dq +:+ "row" +:+ dq +:+ ">
              <div class=" +:+ dq +:+ "col-md-6" +:+ dq +:+ ">
                <canvas id=" +:+ dq +:+ "summaryChart" +:+ dq +:+ "></canvas>
              </div>
              <div class=" +:+ dq +:+ "col-md-6" +:+ dq +:+ ">
                <table class=" +:+ dq +:+ "table table-bordered" +:+ dq +:+ ">
                  <tr><th>Total Checks</th><td>".

Definition summary_successful : string :=
  "</td></tr>
                  <tr><th>Successful</th><td>".

Definition summary_failed : string :=
  "</td></tr>
                  <tr><th>Failed</th><td>".

Definition summary_skipped : string :=
  "</td></tr>
                  <tr><th>Skipped</th><td>".

Definition summary_close : string :=
  "</td></tr>
                </table>
              </div>
            </div>
          </div>".

(** From the end of the summary to the opening of the screenshot gallery. *)
Definition performance_section : string :=
  "
          
          <div class=" +:+ dq +:+ "report-section" +:+ dq +:+ ">
            <h2>Performance Metrics</h2>
            <div class=" +:+ dq +:+ "row" +:+ dq +:+ ">
              <div class=" +:+ dq +:+ "col-md-6" +:+ dq +:+ ">
                <h4>Component Load Times</h4>
                <canvas id=" +:+ dq +:+ "componentLoadChart" +:+ dq +:+ "></canvas>
              </div>
              <div class=" +:+ dq +:+ "col-md-6" +:+ dq +:+ ">
                <h4>Interaction Times</h4>
                <canvas id=" +:+ dq +:+ "interactionChart" +:+ dq +:+ "></canvas>
              </div>
            </div>
          </div>
          
          <div class=" +:+ dq +:+ "report-section" +:+ dq +:+ ">
            <h2>Screenshots</h2>
            <div class=" +:+ dq +:+ "screenshot-gallery" +:+ dq +:+ ">
              ".

(** The inner template literal, rendered once per screenshot. *)
Definition img_open : string :=
  "
                <img src=" +:+ dq.

Definition img_middle : string :=
  dq +:+ " 
                     class=" +:+ dq +:+ "screenshot-thumbnail img-thumbnail" +:+ dq +:+ " 
                     width=" +:+ dq +:+ "200" +:+ dq +:+ " 
                     data-bs-toggle=" +:+ dq +:+ "modal" +:+ dq +:+ " 
                     data-bs-target=" +:+ dq +:+ "#screenshotModal" +:+ dq +:+ "
                     onclick=" +:+ dq +:+ "document.getElementById('modalImage').src='".

Definition img_close : string :=
  "'" +:+ dq +:+ ">
              ".

(** From the end of the gallery to the first datum of the summary chart. *)
Definition script_open : string :=
  "
            </div>
          </div>
          
          <!-- Screenshot Modal -->
          <div class=" +:+ dq +:+ "modal fade" +:+ dq +:+ " id=" +:+ dq +:+ "screenshotModal" +:+ dq +:+ " tabindex=" +:+ dq +:+ "-1" +:+ dq +:+ ">
            <div class=" +:+ dq +:+ "modal-dialog modal-xl" +:+ dq +:+ ">
              <div class=" +:+ dq +:+ "modal-content" +:+ dq +:+ ">
                <div class=" +:+ dq +:+ "modal-body text-center" +:+ dq +:+ ">
                  <img id=" +:+ dq +:+ "modalImage" +:+ dq +:+ " class=" +:+ dq +:+ "modal-image" +:+ dq +:+ ">
                </div>
              </div>
            </div>
          </div>
        </div>
        
        <script>
          // Initialize charts
          document.addEventListener('DOMContentLoaded', function() {
            // Summary Chart
            new Chart(document.getElementById('summaryChart'), {
              type: 'doughnut',
              data: {
                labels: ['Success', 'Failed', 'Skipped'],
                datasets: [{
                  data: [
                    ".

Definition script_sep1 : string :=
  ",
                    ".

Definition script_sep2 : string :=
  ",
                    ".

(** The rest of the document. *)
Definition page_tail : string :=
  "
                  ],
                  backgroundColor: ['#28a745', '#dc3545', '#ffc107']
                }]
              }
            });
            
            // Performance Charts would be initialized here
          });
        </script>
      </body>
      </html>
    ".

(** The summary section for given results. *)
Definition summary_section (r : ValidationResults) : string :=
  summary_open +:+ ToString (total r)
  +:+ summary_successful +:+ ToString (successful r)
  +:+ summary_failed +:+ ToString (failed r)
  +:+ summary_skipped +:+ ToString (skipped r)
  +:+ summary_close.

(** One gallery entry: the [img] element of a screenshot. *)
Definition img (url : string) : string :=
  img_open +:+ url +:+ img_middle +:+ url +:+ img_close.

(** [this.screenshots.map(s => ...).join('')]. *)
Definition gallery (shots : list Screenshot) : string :=
  String.concat EmptyString (map (λ s, img (dataUrl s)) shots).

(** The data of the summary chart. *)
Definition chart_data (r : ValidationResults) : string :=
  ToString (successful r) +:+ script_sep1 +:+ ToString (failed r)
  +:+ script_sep2 +:+ ToString (skipped r).

Definition render (r : ValidationResults) (shots : list Screenshot) : string :=
  page_head +:+ summary_section r +:+ performance_section +:+ gallery shots
  +:+ script_open +:+ chart_data r +:+ page_tail.

(** [generateReportHTML()]: the first substitution reads a field of
    [this.validationResults], which throws when that is [null]. *)
Definition generateReportHTML (g : state) : completion string :=
  match validationResults g with
  | None => Throw TypeError
  | Some r => Return (render r (screenshots g))
  end.

(** Calls that change a builder. *)
Inductive call :=
| AddScreenshot (nm url ts : string)
| SetPerformanceData (data : PerformanceMetrics.PerformanceReport)
| SetValidationResults (results : ValidationResults).

Definition step (g : state) (c : call) : state :=
  match c with
  | AddScreenshot nm url ts => addScreenshot nm url ts g
  | SetPerformanceData data => setPerformanceData data g
  | SetValidationResults results => setValidationResults results g
  end.

Definition run (cs : list call) (g : state) : state := fold_left step cs g.

(** The screenshots a sequence of calls adds, in call order, the validation
    results it sets, and the last of these. *)
Definition added (cs : list call) : list Screenshot :=
  omap (λ c, match c with
             | AddScreenshot nm url ts => Some {| name := nm; dataUrl := url; timestamp := ts |}
             | _ => None
             end) cs.

Definition results_set (cs : list call) : list ValidationResults :=
  omap (λ c, match c with
             | SetValidationResults r => Some r
             | _ => None
             end) cs.

Definition last_results (cs : list call) : option ValidationResults :=
  last (results_set cs).



(** Text inclusion, and the order of two occurrences. *)
Definition contains (sub s : string) : Prop :=
  ∃ pre post, s = pre +:+ sub +:+ post.


End HTMLReportGenerator.

(** * Properties of the metrics collector *)
Module PerformanceMetricsProofs.
Import PerformanceMetrics.

(** ** Statistics *)

Lemma min2_cases a b : min2 a b = a ∨ min2 a b = b.
Proof. unfold min2. destruct (Qle_bool a b); auto. Qed.

Lemma max2_cases a b : max2 a b = a ∨ max2 a b = b.
Proof. unfold max2. destruct (Qle_bool a b); auto. Qed.

Lemma Qle_bool_false a b : Qle_bool a b = false → (b <= a)%Q.
Proof.
  intros H. destruct (Qlt_le_dec a b) as [Hlt|Hle]; [|exact Hle].
  apply Qlt_le_weak, Qle_bool_iff in Hlt. congruence.
Qed.

Lemma min2_le a b : (min2 a b <= a)%Q ∧ (min2 a b <= b)%Q.
Proof.
  unfold min2. destruct (Qle_bool a b) eqn:E.
  - apply Qle_bool_iff in E. split; [apply Qle_refl | exact E].
  - apply Qle_bool_false in E. split; [exact E | apply Qle_refl].
Qed.

Lemma max2_ge a b : (a <= max2 a b)%Q ∧ (b <= max2 a b)%Q.
Proof.
  unfold max2. destruct (Qle_bool a b) eqn:E.
  - apply Qle_bool_iff in E. split; [exact E | apply Qle_refl].
  - apply Qle_bool_false in E. split; [apply Qle_refl | exact E].
Qed.

Lemma Math_min_elem xs : ∀ x, Math_min x xs ∈ x :: xs.
Proof.
  unfold Math_min. induction xs as [|y ys IH]; intros x; simpl.
  - apply list_elem_of_here.
  - specialize (IH (min2 x y)). apply elem_of_cons in IH as [->|IH].
    + destruct (min2_cases x y) as [->| ->]; set_solver.
    + set_solver.
Qed.

Lemma Math_max_elem xs : ∀ x, Math_max x xs ∈ x :: xs.
Proof.
  unfold Math_max. induction xs as [|y ys IH]; intros x; simpl.
  - apply list_elem_of_here.
  - specialize (IH (max2 x y)). apply elem_of_cons in IH as [->|IH].
    + destruct (max2_cases x y) as [->| ->]; set_solver.
    + set_solver.
Qed.

Lemma Math_min_lower xs : ∀ x y, y ∈ x :: xs → (Math_min x xs <= y)%Q.
Proof.
  unfold Math_min. induction xs as [|z zs IH]; intros x y Hy; simpl.
  - apply list_elem_of_singleton in Hy as ->. apply Qle_refl.
  - destruct (min2_le x z) as [Hx Hz].
    apply elem_of_cons in Hy as [->|Hy].
    + eapply Qle_trans; [apply IH, list_elem_of_here | exact Hx].
    + apply elem_of_cons in Hy as [->|Hy].
      * eapply Qle_trans; [apply IH, list_elem_of_here | exact Hz].
      * apply IH. by apply list_elem_of_further.
Qed.

Lemma Math_max_upper xs : ∀ x y, y ∈ x :: xs → (y <= Math_max x xs)%Q.
Proof.
  unfold Math_max. induction xs as [|z zs IH]; intros x y Hy; simpl.
  - apply list_elem_of_singleton in Hy as ->. apply Qle_refl.
  - destruct (max2_ge x z) as [Hx Hz].
    apply elem_of_cons in Hy as [->|Hy].
    + eapply Qle_trans; [exact Hx | apply IH, list_elem_of_here].
    + apply elem_of_cons in Hy as [->|Hy].
      * eapply Qle_trans; [exact Hz | apply IH, list_elem_of_here].
      * apply IH. by apply list_elem_of_further.
Qed.

Example getStats_example :
  getStats (Some [3; 1; 2; 1]%Q) = Some {| min := 1; max := 3; avg := 7 # 4; count := 4 |}.
Proof. reflexivity. Qed.

(** The left-to-right running sum of [reduce] is the sum of the samples. *)
Lemma reduce_sum l : ∀ a, (reduce (λ a b, a + b) a l == a + Qsum l)%Q.
Proof.
  unfold reduce. induction l as [|x l IH]; intros a; simpl.
  - ring.
  - rewrite IH. ring.
Qed.

Lemma getStats_cons x xs :
  ∃ st, getStats (Some (x :: xs)) = Some st
        ∧ is_minimum (min st) (x :: xs) ∧ is_maximum (max st) (x :: xs)
        ∧ (avg st == Qsum (x :: xs) / inject_Z (Z.of_nat (length (x :: xs))))%Q
        ∧ count st = length (x :: xs).
Proof.
  eexists. split; [reflexivity|]. cbn [min max avg count].
  split; [|split; [|split]].
  - split; [apply Math_min_elem | intros y; apply Math_min_lower].
  - split; [apply Math_max_elem | intros y; apply Math_max_upper].
  - rewrite reduce_sum, Qplus_0_l. reflexivity.
  - reflexivity.
Qed.

(** ** Recording samples *)








(** C2. For a missing series and for an empty one [getStats] returns [null];
    whenever it returns a summary the series has at least one sample, so the
    divisor of the average is not zero. *)
Theorem getStats_empty :
  getStats None = None
  ∧ getStats (Some []) = None
  ∧ (∀ (m : gmap string (list Q)) key, m !! key = None → getStats (m !! key) = None)
  ∧ ∀ data st, getStats data = Some st →
      ∃ l, data = Some l ∧ l ≠ [] ∧ ¬ (inject_Z (Z.of_nat (length l)) == 0)%Q.
Proof.
  split; [done|]. split; [done|]. split; [by intros m key ->|].
  intros [[|x xs]|] st H; try discriminate.
  exists (x :: xs). split; [done|]. split; [done|].
  unfold Qeq. simpl. lia.
Qed.


(** ** Stored series are never empty *)






(** ** Interactions *)



Lemma startInteraction_fresh nm now s : (startInteraction nm now s).1 ∉ dom (objects s).
Proof. apply is_fresh. Qed.

Lemma startInteraction_history nm now s :
  history (startInteraction nm now s).2 = history s.
Proof. done. Qed.

Lemma endInteraction_history now s l :
  currentInteraction s = Some l →
  history (endInteraction now s) = (λ hist, hist ++ [l]) <$> history s.
Proof.
  intros Hl. unfold endInteraction. rewrite Hl.
  unfold history, deref_array. simpl. by rewrite lookup_alter_eq.
Qed.

Lemma endInteraction_idle now s :
  currentInteraction s = None → endInteraction now s = s.
Proof. intros H. unfold endInteraction. by rewrite H. Qed.

Lemma endInteraction_object now s l i :
  currentInteraction s = Some l → objects s !! l = Some i →
  objects (endInteraction now s) !! l
  = Some {| name := name i; startTime := startTime i;
            endTime := Some now; duration := Some (now - startTime i)%Q |}.
Proof.
  intros Hl Hi. unfold endInteraction. rewrite Hl. simpl.
  by rewrite !lookup_alter_eq, Hi.
Qed.

Lemma endInteraction_object_ne now s l l' :
  currentInteraction s = Some l → l' ≠ l →
  objects (endInteraction now s) !! l' = objects s !! l'.
Proof.
  intros Hl Hne. unfold endInteraction. rewrite Hl. simpl.
  by rewrite !lookup_alter_ne.
Qed.

Lemma endInteraction_current now s : currentInteraction (endInteraction now s) = None.
Proof. unfold endInteraction. by destruct (currentInteraction s) eqn:E. Qed.

(** Well-formedness is kept by every call. *)
Lemma wf_step s c : wf s → wf (step s c).
Proof.
  intros [(hist & Hh & Hdom) Hcur].
  destruct c as [nm now|now|? ?|? ?|?]; simpl;
    [| |by split; [exists hist|]..].
  - split.
    + exists hist. split; [done|]. intros l Hl. simpl.
      rewrite dom_insert. apply elem_of_union_r. by apply Hdom.
    + intros l [= <-]. simpl. rewrite dom_insert. set_solver.
  - destruct (currentInteraction s) as [l|] eqn:E.
    + split.
      * exists (hist ++ [l]). split; [by rewrite (endInteraction_history _ _ l), Hh|].
        intros l' Hl'. apply elem_of_dom.
        destruct (decide (l' = l)) as [->|Hne].
        -- pose proof (Hcur l eq_refl) as Hi. apply elem_of_dom in Hi as [i Hi].
           rewrite (endInteraction_object _ _ _ i) by done. done.
        -- rewrite (endInteraction_object_ne _ _ l) by done. apply elem_of_dom, Hdom.
           apply elem_of_app in Hl' as [Hl'|Hl']; [done|].
           by apply list_elem_of_singleton in Hl'.
      * intros l'. by rewrite endInteraction_current.
    + rewrite endInteraction_idle by done.
      split; [by exists hist | intros l Hl; congruence].
Qed.

Lemma wf_constructor objs arrs : wf (constructor objs arrs).
Proof.
  split; [|done]. exists []. split; [|set_solver].
  unfold history, deref_array. simpl. apply lookup_insert_eq.
Qed.

Lemma wf_run cs : ∀ s, wf s → wf (run cs s).
Proof.
  unfold run. induction cs as [|c cs IH]; intros s H; simpl; [done|].
  by apply IH, wf_step.
Qed.

(** C5. From any well-formed state, [startInteraction] twice and then
    [endInteraction] once: the history grows by exactly one entry, the second
    record, finalized; the first record is in no entry of the history and
    stays unfinalized; the in-flight slot is cleared.  Both calls of
    [startInteraction] return (a reference), neither can fail. *)
Theorem start_twice_loses_first (nm1 nm2 : string) (t1 t2 t3 : Q) (s : state) :
  wf s →
  let l1 := (startInteraction nm1 t1 s).1 in
  let s1 := (startInteraction nm1 t1 s).2 in
  let l2 := (startInteraction nm2 t2 s1).1 in
  let s2 := (startInteraction nm2 t2 s1).2 in
  let s3 := endInteraction t3 s2 in
  ∃ hist, history s = Some hist
    ∧ history s3 = Some (hist ++ [l2])
    ∧ length (hist ++ [l2]) = S (length hist)
    ∧ (l1 ∉ hist ++ [l2])
    ∧ objects s3 !! l2
      = Some {| name := nm2; startTime := t2; endTime := Some t3; duration := Some (t3 - t2)%Q |}
    ∧ objects s3 !! l1
      = Some {| name := nm1; startTime := t1; endTime := None; duration := None |}
    ∧ currentInteraction s3 = None.
Proof.
  intros [(hist & Hh & Hdom) _] l1 s1 l2 s2 s3.
  assert (Hl1 : l1 ∉ dom (objects s)) by apply startInteraction_fresh.
  assert (Hl2 : l2 ∉ dom (objects s1)) by apply startInteraction_fresh.
  assert (Hne : l1 ≠ l2).
  { intros Heq. apply Hl2. rewrite <- Heq. subst s1. simpl.
    rewrite dom_insert. set_solver. }
  assert (Hcur : currentInteraction s2 = Some l2) by done.
  exists hist. split; [done|]. split; [|split; [|split; [|split; [|split]]]].
  - subst s3 s2 s1. rewrite (endInteraction_history _ _ l2) by done.
    by rewrite !startInteraction_history, Hh.
  - rewrite length_app. simpl. lia.
  - intros [Hin|Hin]%elem_of_app.
    + by apply Hl1, Hdom.
    + by apply list_elem_of_singleton in Hin.
  - subst s3.
    rewrite (endInteraction_object _ _ l2
               {| name := nm2; startTime := t2; endTime := None; duration := None |});
      [done|done|apply lookup_insert_eq].
  - subst s3. rewrite (endInteraction_object_ne _ _ l2) by done.
    subst s2. simpl. rewrite lookup_insert_ne by done. apply lookup_insert_eq.
  - apply endInteraction_current.
Qed.

Lemma start_twice_loses_first_witness :
  let s := constructor ∅ ∅ in
  let l1 := (startInteraction "open" 1 s).1 in
  let s1 := (startInteraction "open" 1 s).2 in
  let l2 := (startInteraction "save" 2 s1).1 in
  let s2 := (startInteraction "save" 2 s1).2 in
  let s3 := endInteraction 5 s2 in
  wf s ∧ ∃ hist, history s = Some hist
    ∧ history s3 = Some (hist ++ [l2])
    ∧ length (hist ++ [l2]) = S (length hist)
    ∧ (l1 ∉ hist ++ [l2])
    ∧ objects s3 !! l2
      = Some {| name := "save"; startTime := 2; endTime := Some 5%Q; duration := Some (5 - 2)%Q |}
    ∧ objects s3 !! l1
      = Some {| name := "open"; startTime := 1; endTime := None; duration := None |}
    ∧ currentInteraction s3 = None.
Proof.
  split; [apply wf_constructor|].
  apply (start_twice_loses_first "open" "save" 1 2 5 (constructor ∅ ∅)), wf_constructor.
Defined.

(** ** The clock invariant *)

Lemma clock_invariant_weaken t t' s : (t <= t')%Q → clock_invariant t s → clock_invariant t' s.
Proof.
  intros Hle [Hhist Hcur]. split; [done|].
  intros l Hl. destruct (Hcur l Hl) as (i & Hi & Hst).
  exists i. split; [done|]. by eapply Qle_trans.
Qed.

Lemma startInteraction_invariant nm now t s :
  clock_invariant t s → clock_invariant now (startInteraction nm now s).2.
Proof.
  intros [(hist & Hh & Hfin) _]. split.
  - exists hist. split; [done|]. intros l Hl.
    destruct (Hfin l Hl) as (i & Hi & Hf). exists i. split; [|done]. simpl.
    rewrite lookup_insert_ne; [done|].
    intros <-. eapply (startInteraction_fresh nm now s), elem_of_dom_2, Hi.
  - intros l [= <-]. eexists. split; [apply lookup_insert_eq|]. simpl. apply Qle_refl.
Qed.

Lemma finalized_after_end (i : Interaction) (now : Q) :
  (startTime i <= now)%Q →
  finalized {| name := name i; startTime := startTime i;
               endTime := Some now; duration := Some (now - startTime i)%Q |}.
Proof.
  intros Hle. exists now. simpl. split; [done|]. split; [done|]. split; [done|]. lra.
Qed.

Lemma endInteraction_invariant now t s :
  (t <= now)%Q → clock_invariant t s → clock_invariant now (endInteraction now s).
Proof.
  intros Hle Hinv. destruct (currentInteraction s) as [l|] eqn:E.
  - destruct Hinv as [(hist & Hh & Hfin) Hcur].
    destruct (Hcur l E) as (i & Hi & Hst). split.
    + exists (hist ++ [l]). split; [by rewrite (endInteraction_history _ _ l), Hh|].
      intros l' Hl'. destruct (decide (l' = l)) as [->|Hne].
      * eexists. split; [by apply endInteraction_object|].
        apply finalized_after_end. by eapply Qle_trans.
      * rewrite (endInteraction_object_ne _ _ l) by done. apply Hfin.
        apply elem_of_app in Hl' as [Hl'|Hl']; [done|].
        by apply list_elem_of_singleton in Hl'.
    + intros l'. by rewrite endInteraction_current.
  - rewrite endInteraction_idle by done. by apply (clock_invariant_weaken t).
Qed.

Lemma constructor_invariant t objs arrs : clock_invariant t (constructor objs arrs).
Proof.
  split; [|done]. exists []. split; [|set_solver].
  unfold history, deref_array. simpl. apply lookup_insert_eq.
Qed.

Lemma run_invariant cs : ∀ t s,
  monotonic t cs → clock_invariant t s → ∃ t', clock_invariant t' (run cs s).
Proof.
  unfold run. induction cs as [|c cs IH]; intros t s Hmono Hinv; simpl.
  - by exists t.
  - destruct c as [nm now|now|nm d|nm d|ts]; simpl in Hmono.
    + destruct Hmono as [Hle Hmono]. apply (IH now); [done|].
      by apply (startInteraction_invariant nm now t).
    + destruct Hmono as [Hle Hmono]. apply (IH now); [done|].
      by apply (endInteraction_invariant now t).
    + apply (IH t); [done|]. exact Hinv.
    + apply (IH t); [done|]. exact Hinv.
    + apply (IH t); [done|]. exact Hinv.
Qed.

(** C6. With a monotonic clock, in every state a collector reaches from its
    constructor each entry of the history is a record with
    [endTime >= startTime] and [duration = endTime - startTime >= 0].  In
    particular, on a new collector [startInteraction("x")] at time [t1]
    followed at once by [endInteraction()] at time [t2 >= t1] leaves exactly
    one entry in the history, with these fields, and no in-flight
    interaction. *)
Theorem finalized_interactions objs arrs (cs : list call) (t0 t1 t2 : Q) :
  monotonic t0 cs →
  (t1 <= t2)%Q →
  (let s := run cs (constructor objs arrs) in
   ∃ hist, history s = Some hist
     ∧ ∀ l, l ∈ hist →
         ∃ i e, objects s !! l = Some i
           ∧ endTime i = Some e ∧ duration i = Some (e - startTime i)%Q
           ∧ (startTime i <= e)%Q ∧ (0 <= e - startTime i)%Q)
  ∧
  (let l := (startInteraction "x" t1 (constructor objs arrs)).1 in
   let s := endInteraction t2 (startInteraction "x" t1 (constructor objs arrs)).2 in
   history s = Some [l]
   ∧ objects s !! l
     = Some {| name := "x"; startTime := t1; endTime := Some t2; duration := Some (t2 - t1)%Q |}
   ∧ (t1 <= t2)%Q ∧ (0 <= t2 - t1)%Q
   ∧ currentInteraction s = None).
Proof.
  intros Hmono Hle. split.
  - intros s.
    destruct (run_invariant cs t0 (constructor objs arrs) Hmono (constructor_invariant _ _ _))
      as [t' [(hist & Hh & Hfin) _]].
    exists hist. split; [exact Hh|]. intros l Hl.
    destruct (Hfin l Hl) as (i & Hi & e & He & Hd & H1 & H2).
    exists i, e. done.
  - intros l s. split; [|split; [|split; [|split]]].
    + subst s. rewrite (endInteraction_history _ _ l) by done.
      rewrite startInteraction_history.
      unfold history, deref_array. simpl. by rewrite lookup_insert_eq.
    + subst s.
      rewrite (endInteraction_object _ _ l
                 {| name := "x"; startTime := t1; endTime := None; duration := None |});
        [done|done|apply lookup_insert_eq].
    + exact Hle.
    + lra.
    + apply endInteraction_current.
Qed.

Lemma finalized_interactions_witness :
  let cs := [StartInteraction "a" 1; RecordComponentLoad "c" 3; StartInteraction "b" 2;
             EndInteraction 4; EndInteraction 5; StartInteraction "x" 5; EndInteraction 5] in
  let s := run cs (constructor ∅ ∅) in
  monotonic 0 cs ∧ (1 <= 3)%Q
  ∧ ∃ hist, history s = Some hist
     ∧ ∀ l, l ∈ hist →
         ∃ i e, objects s !! l = Some i
           ∧ endTime i = Some e ∧ duration i = Some (e - startTime i)%Q
           ∧ (startTime i <= e)%Q ∧ (0 <= e - startTime i)%Q.
Proof.
  intros cs s.
  assert (Hmono : monotonic 0 cs).
  { simpl. unfold Qle. simpl. lia. }
  assert (Hle : (1 <= 3)%Q).
  { unfold Qle. simpl. lia. }
  split; [exact Hmono|]. split; [exact Hle|].
  exact (proj1 (finalized_interactions ∅ ∅ cs 0 1 3 Hmono Hle)).
Defined.

(** ** The report *)

(** C7. [generatePerformanceReport] leaves the collector and the store as
    they are; two calls in a row return reports that differ at most in
    [timestamp]: the same [interactions] reference, equal statistics, and so
    equal values when references are followed. *)
Theorem report_repeatable (ts1 ts2 : string) (s : state) :
  let r1 := (generatePerformanceReport ts1 s).1 in
  let s1 := (generatePerformanceReport ts1 s).2 in
  let r2 := (generatePerformanceReport ts2 s1).1 in
  let s2 := (generatePerformanceReport ts2 s1).2 in
  s1 = s ∧ s2 = s
  ∧ report_interactions r1 = report_interactions r2
  ∧ componentStats r1 = componentStats r2
  ∧ elementStats r1 = elementStats r2
  ∧ deep_value r1 s2 = deep_value r2 s2
  ∧ timestamp r1 = ts1 ∧ timestamp r2 = ts2.
Proof. cbn zeta. repeat split. Qed.




(** * Further properties of the metrics collector *)

(** ** Series and the calls that fill them *)


Lemma run_cons c cs s : run (c :: cs) s = run cs (step s c).
Proof. done. Qed.








(** ** More on the statistics *)

Lemma is_minimum_Permutation m m' (l l' : list Q) :
  l ≡ₚ l' → is_minimum m l → is_minimum m' l' → (m == m')%Q.
Proof.
  intros Hp [Hin Hle] [Hin' Hle']. apply Qle_antisym.
  - apply Hle. by rewrite Hp.
  - apply Hle'. by rewrite <- Hp.
Qed.

Lemma is_maximum_Permutation m m' (l l' : list Q) :
  l ≡ₚ l' → is_maximum m l → is_maximum m' l' → (m == m')%Q.
Proof.
  intros Hp [Hin Hle] [Hin' Hle']. apply Qle_antisym.
  - apply Hle'. by rewrite <- Hp.
  - apply Hle. by rewrite Hp.
Qed.

(** The extremes and the count do not depend on the order in which the
    samples were recorded: on a reordering of the series [getStats] returns a
    summary with the same [count] and equal [min] and [max]; and [min] is
    never above [max]. *)
Theorem stats_order_independent (l l' : list Q) (st : Stats) :
  l ≡ₚ l' →
  getStats (Some l) = Some st →
  ∃ st', getStats (Some l') = Some st'
         ∧ count st' = count st
         ∧ (min st' == min st)%Q ∧ (max st' == max st)%Q
         ∧ (min st <= max st)%Q.
Proof.
  intros Hp Hst. destruct l as [|x xs]; [discriminate|].
  destruct l' as [|y ys]; [by apply Permutation_nil_r in Hp|].
  destruct (getStats_cons x xs) as (st0 & Hst0 & Hmin & Hmax & _ & Hcount).
  assert (st0 = st) as -> by congruence.
  destruct (getStats_cons y ys) as (st' & Hst' & Hmin' & Hmax' & _ & Hcount').
  exists st'. split; [done|].
  split; [by rewrite Hcount, Hcount', Hp|].
  split; [by apply (is_minimum_Permutation _ _ (y :: ys) (x :: xs))|].
  split; [by apply (is_maximum_Permutation _ _ (y :: ys) (x :: xs))|].
  destruct Hmin as [Hin _], Hmax as [_ Hle]. by apply Hle.
Qed.

Lemma stats_order_independent_witness :
  ∃ st st', getStats (Some [3; 1; 2]%Q) = Some st
            ∧ getStats (Some [2; 3; 1]%Q) = Some st'
            ∧ count st' = count st
            ∧ (min st' == min st)%Q ∧ (max st' == max st)%Q
            ∧ (min st <= max st)%Q.
Proof.
  assert (Hp : [3; 1; 2]%Q ≡ₚ [2; 3; 1]%Q).
  { change ([3; 1; 2]%Q ≡ₚ [2]%Q ++ [3; 1]%Q).
    change ([3; 1; 2]%Q) with ([3; 1]%Q ++ [2]%Q). apply Permutation_app_comm. }
  destruct (stats_order_independent _ _ _ Hp eq_refl) as (st' & Hst' & Hrest).
  eexists. exists st'. split; [reflexivity|]. split; [exact Hst'|exact Hrest].
Defined.

(** ** The in-flight record and the history *)

Lemma endInteraction_dom now s : dom (objects (endInteraction now s)) = dom (objects s).
Proof.
  unfold endInteraction. destruct (currentInteraction s); [|done].
  simpl. by rewrite !dom_alter_L.
Qed.

Lemma inflight_constructor objs arrs : inflight_invariant (constructor objs arrs).
Proof.
  split; [|done]. exists []. split; [|set_solver].
  unfold history, deref_array. simpl. apply lookup_insert_eq.
Qed.

Lemma inflight_step s c : inflight_invariant s → inflight_invariant (step s c).
Proof.
  intros [(hist & Hh & Hdom) Hcur].
  destruct c as [nm now|now|? ?|? ?|?]; simpl;
    [| |by split; [exists hist|]..].
  - split.
    + exists hist. split; [done|]. intros l Hl. simpl.
      rewrite dom_insert. apply elem_of_union_r. by apply Hdom.
    + intros l [= <-]. split.
      * intros hist' Hh' Hin. change (history s = Some hist') in Hh'.
        assert (hist' = hist) as -> by congruence.
        by apply (startInteraction_fresh nm now s), Hdom.
      * eexists. split; [apply lookup_insert_eq|done].
  - destruct (currentInteraction s) as [l|] eqn:E.
    + split; [|intros l'; by rewrite endInteraction_current].
      exists (hist ++ [l]). split; [by rewrite (endInteraction_history _ _ l), Hh|].
      intros l' Hl'. rewrite endInteraction_dom.
      apply elem_of_app in Hl' as [Hl'|Hl']; [by apply Hdom|].
      apply list_elem_of_singleton in Hl' as ->.
      destruct (Hcur l eq_refl) as (_ & i & Hi & _). by eapply elem_of_dom_2.
    + rewrite endInteraction_idle by done.
      split; [by exists hist | intros l Hl; congruence].
Qed.

Lemma inflight_run cs : ∀ s, inflight_invariant s → inflight_invariant (run cs s).
Proof.
  induction cs as [|c cs IH]; intros s H; [done|].
  rewrite run_cons. by apply IH, inflight_step.
Qed.

Lemma step_history_prefix s c hist :
  inflight_invariant s → history s = Some hist →
  ∃ new, history (step s c) = Some (hist ++ new)
         ∧ ∀ l, l ∈ hist → objects (step s c) !! l = objects s !! l.
Proof.
  intros [(hist' & Hh' & Hdom) Hcur] Hh. assert (hist' = hist) as -> by congruence.
  destruct c as [nm now|now|? ?|? ?|?]; simpl;
    [| |by exists []; rewrite app_nil_r..].
  - exists []. rewrite app_nil_r. split; [done|]. intros l Hl. simpl.
    rewrite lookup_insert_ne; [done|]. intros <-.
    by apply (startInteraction_fresh nm now s), Hdom.
  - destruct (currentInteraction s) as [l|] eqn:E.
    + exists [l]. split; [by rewrite (endInteraction_history _ _ l), Hh|].
      intros l' Hl'. apply (endInteraction_object_ne _ _ l); [done|].
      intros ->. destruct (Hcur l eq_refl) as [Hnot _]. by apply (Hnot hist).
    + rewrite endInteraction_idle by done. exists []. by rewrite app_nil_r.
Qed.

Lemma run_history_prefix cs : ∀ s hist,
  inflight_invariant s → history s = Some hist →
  ∃ new, history (run cs s) = Some (hist ++ new)
         ∧ ∀ l, l ∈ hist → objects (run cs s) !! l = objects s !! l.
Proof.
  induction cs as [|c cs IH]; intros s hist Hinv Hh.
  - exists []. by rewrite app_nil_r.
  - rewrite run_cons.
    destruct (step_history_prefix s c hist Hinv Hh) as (new1 & Hh1 & Hobj1).
    destruct (IH (step s c) (hist ++ new1) (inflight_step s c Hinv) Hh1)
      as (new2 & Hh2 & Hobj2).
    exists (new1 ++ new2). split; [by rewrite app_assoc|].
    intros l Hl. rewrite Hobj2 by (apply elem_of_app; by left). by apply Hobj1.
Qed.

(** The history is append-only and its records are frozen: whatever a
    collector is called with after reaching a state, the history of that
    state stays the beginning of the history, and the records it points to
    read as they did. *)
Theorem history_append_only objs arrs (cs cs' : list call) :
  let s := run cs (constructor objs arrs) in
  let s' := run cs' s in
  ∃ hist new,
    history s = Some hist
    ∧ history s' = Some (hist ++ new)
    ∧ (∀ l, l ∈ hist → objects s' !! l = objects s !! l)
    ∧ deref_all hist s' = deref_all hist s.
Proof.
  intros s s'.
  pose proof (inflight_run cs _ (inflight_constructor objs arrs)) as Hinv. fold s in Hinv.
  destruct Hinv as [(hist & Hh & Hdom) Hcur].
  destruct (run_history_prefix cs' s hist) as (new & Hh' & Hobj); [by split; [exists hist|] | done |].
  exists hist, new. split; [done|]. split; [done|]. split; [done|].
  unfold deref_all. apply list_fmap_ext. intros i l Hl. apply Hobj.
  by eapply list_elem_of_lookup_2.
Qed.

(** ** How the calls compose *)

Lemma step_quiet s c :
  reading c = None →
  objects (step s c) = objects s ∧ arrays (step s c) = arrays s
  ∧ interactions (metrics (step s c)) = interactions (metrics s)
  ∧ currentInteraction (step s c) = currentInteraction s.
Proof. by destruct c. Qed.

Lemma run_quiet cs : ∀ s,
  Forall (λ c, reading c = None) cs →
  objects (run cs s) = objects s ∧ arrays (run cs s) = arrays s
  ∧ interactions (metrics (run cs s)) = interactions (metrics s)
  ∧ currentInteraction (run cs s) = currentInteraction s.
Proof.
  induction cs as [|c cs IH]; intros s H; [done|].
  apply Forall_cons in H as [Hc Hcs]. rewrite run_cons.
  destruct (IH (step s c) Hcs) as (-> & -> & -> & ->). by apply step_quiet.
Qed.

(** Recording samples and taking reports while an interaction is in flight
    does not disturb it: from any state, [startInteraction] at [t1], then
    any such calls, then [endInteraction] at [t2] append to the history the
    very record whose reference [startInteraction] returned, with
    [duration = t2 - t1]. *)
Theorem recording_keeps_interaction (nm : string) (t1 t2 : Q) (s : state) (cs : list call) :
  Forall (λ c, reading c = None) cs →
  let h := (startInteraction nm t1 s).1 in
  let s' := endInteraction t2 (run cs (startInteraction nm t1 s).2) in
  objects s' !! h
    = Some {| name := nm; startTime := t1; endTime := Some t2; duration := Some (t2 - t1)%Q |}
  ∧ history s' = (λ hist, hist ++ [h]) <$> history s
  ∧ currentInteraction s' = None.
Proof.
  intros Hcs h s'.
  destruct (run_quiet cs (startInteraction nm t1 s).2 Hcs) as (Hobj & Harr & Hint & Hcur).
  assert (Hh : currentInteraction (run cs (startInteraction nm t1 s).2) = Some h)
    by (by rewrite Hcur).
  split; [|split].
  - subst s'.
    rewrite (endInteraction_object _ _ h
               {| name := nm; startTime := t1; endTime := None; duration := None |});
      [done|done|]. rewrite Hobj. apply lookup_insert_eq.
  - subst s'. rewrite (endInteraction_history _ _ h) by done.
    unfold history, deref_array. by rewrite Hint, Harr.
  - apply endInteraction_current.
Qed.

Lemma recording_keeps_interaction_witness :
  let s := constructor ∅ ∅ in
  let cs := [RecordComponentLoad "header" 12; GeneratePerformanceReport "t";
             RecordElementTiming "button" 3] in
  let h := (startInteraction "submit" 10 s).1 in
  let s' := endInteraction 25 (run cs (startInteraction "submit" 10 s).2) in
  objects s' !! h
    = Some {| name := "submit"; startTime := 10; endTime := Some 25%Q;
              duration := Some (25 - 10)%Q |}
  ∧ history s' = (λ hist, hist ++ [h]) <$> history s
  ∧ currentInteraction s' = None.
Proof.
  intros s cs.
  apply (recording_keeps_interaction "submit" 10 25 s cs).
  repeat constructor.
Defined.

End PerformanceMetricsProofs.

(** * Properties of the report builder *)
Module HTMLReportGeneratorProofs.
Import HTMLReportGenerator.

Lemma append_assoc (a b c : string) : (a +:+ b) +:+ c = a +:+ b +:+ c.
Proof. induction a as [|x a IH]; [done|]. exact (f_equal (String x) IH). Qed.

Lemma step_screenshots g c : screenshots (step g c) = screenshots g ++ added [c].
Proof. destruct c; simpl; [done|by rewrite app_nil_r..]. Qed.

Lemma added_cons c cs : added (c :: cs) = added [c] ++ added cs.
Proof. unfold added. simpl. by destruct c. Qed.

(** Screenshots are kept in call order, whatever the setters in between. *)
Lemma run_screenshots cs : ∀ g, screenshots (run cs g) = screenshots g ++ added cs.
Proof.
  unfold run. induction cs as [|c cs IH]; intros g.
  - simpl. by rewrite app_nil_r.
  - cbn [fold_left]. rewrite IH, step_screenshots, (added_cons c cs).
    by rewrite <- app_assoc.
Qed.

Lemma results_set_snoc cs c :
  results_set (cs ++ [c]) = results_set cs ++ results_set [c].
Proof. unfold results_set. by rewrite omap_app. Qed.

Lemma run_snoc cs c g : run (cs ++ [c]) g = step (run cs g) c.
Proof. unfold run. by rewrite fold_left_app. Qed.

(** The stored results are the last ones set, or the initial ones. *)
Lemma run_validationResults cs : ∀ g,
  validationResults (run cs g)
  = match last_results cs with
    | Some r => Some r
    | None => validationResults g
    end.
Proof.
  unfold last_results. induction cs as [|c cs IH] using rev_ind; intros g; [done|].
  rewrite run_snoc, results_set_snoc.
  destruct c as [nm url ts|data|r]; simpl.
  - rewrite app_nil_r. apply IH.
  - rewrite app_nil_r. apply IH.
  - by rewrite last_snoc.
Qed.

Lemma last_results_None cs : results_set cs = [] → last_results cs = None.
Proof. unfold last_results. by intros ->. Qed.

Example ToString_examples :
  ToString 10 = "10"%string ∧ ToString 0 = "0"%string ∧ ToString (-7) = "-7"%string.
Proof. repeat split. Qed.

Example generateReportHTML_too_early :
  generateReportHTML (run [AddScreenshot "login" "data:," "t"] constructor) = Throw TypeError.
Proof. reflexivity. Qed.

Lemma generateReportHTML_after_results cs r :
  last_results cs = Some r →
  generateReportHTML (run cs constructor) = Return (render r (added cs)).
Proof.
  intros Hr. unfold generateReportHTML.
  by rewrite run_validationResults, Hr, run_screenshots.
Qed.

(** C3. As long as [setValidationResults] has not been called,
    [generateReportHTML] returns no document: it throws the [TypeError] of
    the read of a field of [null].  Once results have been set, it returns
    the document rendered from the last results set and the screenshots
    added so far. *)
Theorem generateReportHTML_requires_results :
  generateReportHTML constructor = Throw TypeError
  ∧ (∀ cs, results_set cs = [] →
       generateReportHTML (run cs constructor) = Throw TypeError
       ∧ ∀ html, generateReportHTML (run cs constructor) ≠ Return html)
  ∧ (∀ g r, generateReportHTML (setValidationResults r g) = Return (render r (screenshots g)))
  ∧ (∀ cs r, last_results cs = Some r →
       generateReportHTML (run cs constructor) = Return (render r (added cs))).
Proof.
  split; [done|]. split; [|split].
  - intros cs Hcs.
    assert (H : generateReportHTML (run cs constructor) = Throw TypeError).
    { unfold generateReportHTML.
      by rewrite run_validationResults, (last_results_None cs Hcs). }
    split; [exact H|]. intros html. by rewrite H.
  - done.
  - apply generateReportHTML_after_results.
Qed.

(** ** The rendered document *)







(** * Further properties of the report builder *)

(** ** The gallery *)

Lemma append_nil_r (a : string) : a +:+ EmptyString = a.
Proof. induction a as [|x a IH]; [done|]. exact (f_equal (String x) IH). Qed.

Lemma gallery_cons (a : Screenshot) (l : list Screenshot) :
  gallery (a :: l) = img (dataUrl a) +:+ gallery l.
Proof. destruct l; [|done]. unfold gallery. simpl. by rewrite append_nil_r. Qed.

Lemma gallery_app (l1 l2 : list Screenshot) :
  gallery (l1 ++ l2) = gallery l1 +:+ gallery l2.
Proof.
  induction l1 as [|a l1 IH]; [done|].
  rewrite <- app_comm_cons, !gallery_cons, IH. by rewrite append_assoc.
Qed.

(** ** What the document is made from *)

Lemma contains_app_l (sub s a : string) : contains sub s → contains sub (a +:+ s).
Proof.
  intros (pre & post & ->). exists (a +:+ pre), post. by rewrite append_assoc.
Qed.

Lemma contains_app_r (sub s b : string) : contains sub s → contains sub (s +:+ b).
Proof.
  intros (pre & post & ->). exists pre, (post +:+ b). by rewrite !append_assoc.
Qed.

Lemma contains_gallery (sub : string) (shots : list Screenshot) (a : Screenshot) :
  a ∈ shots → contains sub (img (dataUrl a)) → contains sub (gallery shots).
Proof.
  intros [l1 [l2 ->]]%list_elem_of_split H.
  rewrite gallery_app, gallery_cons. by apply contains_app_l, contains_app_r.
Qed.

Lemma contains_render (sub : string) r (shots : list Screenshot) :
  contains sub (gallery shots) → contains sub (render r shots).
Proof.
  intros H. unfold render. by do 3 apply contains_app_l; apply contains_app_r.
Qed.

Lemma img_src (url : string) :
  contains ("<img src=" +:+ dq +:+ url +:+ dq) (img url)
  ∧ contains (".src='" +:+ url +:+ "'") (img url).
Proof.
  assert (Hopen : img_open = substring 0 17 img_open +:+ "<img src=" +:+ dq) by done.
  assert (Hmid : img_middle = dq +:+ substring 1 274 img_middle) by done.
  assert (Hmid' : img_middle = substring 0 269 img_middle +:+ ".src='") by done.
  assert (Hclose : img_close = "'" +:+ substring 1 17 img_close) by done.
  split.
  - exists (substring 0 17 img_open),
           (substring 1 274 img_middle +:+ url +:+ img_close).
    unfold img. rewrite Hopen at 1. rewrite Hmid at 1. by rewrite !append_assoc.
  - exists (img_open +:+ url +:+ substring 0 269 img_middle),
           (substring 1 17 img_close).
    unfold img. rewrite Hmid' at 1. rewrite Hclose at 1. by rewrite !append_assoc.
Qed.

(** Data URLs are written into the document exactly as they were given,
    whatever characters they contain: for every screenshot the document has
    [src="URL"] and [.src='URL'] with the URL unchanged (nothing is escaped
    or encoded). *)
Theorem dataUrl_verbatim (g : state) (r : ValidationResults) (a : Screenshot) :
  validationResults g = Some r →
  a ∈ screenshots g →
  ∃ html, generateReportHTML g = Return html
          ∧ contains ("<img src=" +:+ dq +:+ dataUrl a +:+ dq) html
          ∧ contains (".src='" +:+ dataUrl a +:+ "'") html.
Proof.
  intros Hr Ha. exists (render r (screenshots g)).
  split; [unfold generateReportHTML; by rewrite Hr|].
  destruct (img_src (dataUrl a)) as [H1 H2].
  split; by eapply contains_render, contains_gallery.
Qed.

Lemma dataUrl_verbatim_witness :
  let a := {| name := "x"; dataUrl := "'><script>alert(1)</script>"; timestamp := "t" |} in
  let g := run [SetValidationResults {| total := 1; successful := 1; failed := 0; skipped := 0 |};
                AddScreenshot (name a) (dataUrl a) (timestamp a)] constructor in
  ∃ html, generateReportHTML g = Return html
          ∧ contains ("<img src=" +:+ dq +:+ dataUrl a +:+ dq) html
          ∧ contains (".src='" +:+ dataUrl a +:+ "'") html.
Proof.
  intros a g.
  apply (dataUrl_verbatim g {| total := 1; successful := 1; failed := 0; skipped := 0 |} a).
  - reflexivity.
  - apply list_elem_of_here.
Defined.

Lemma gallery_dataUrls (shots shots' : list Screenshot) :
  dataUrl <$> shots = dataUrl <$> shots' → gallery shots = gallery shots'.
Proof.
  intros H. unfold gallery.
  change (map (λ s, img (dataUrl s)) shots) with ((img ∘ dataUrl) <$> shots).
  change (map (λ s, img (dataUrl s)) shots') with ((img ∘ dataUrl) <$> shots').
  by rewrite !list_fmap_compose, H.
Qed.

(** The document is made from the validation results and the data URLs of
    the screenshots, and from nothing else: the performance data handed to
    [setPerformanceData] and the names and capture times of the screenshots
    are stored but never written into it. *)
Theorem document_ignores_performance_data (g g' : state) :
  validationResults g = validationResults g' →
  dataUrl <$> screenshots g = dataUrl <$> screenshots g' →
  generateReportHTML g = generateReportHTML g'.
Proof.
  intros Hr Hs. unfold generateReportHTML. rewrite <- Hr.
  destruct (validationResults g) as [r|]; [|done].
  unfold render. by rewrite (gallery_dataUrls _ _ Hs).
Qed.

Lemma document_ignores_performance_data_witness :
  let r := {| total := 1; successful := 1; failed := 0; skipped := 0 |} in
  let report := (PerformanceMetrics.generatePerformanceReport "t"
                   (PerformanceMetrics.recordComponentLoad "header" 5
                      (PerformanceMetrics.constructor ∅ ∅))).1 in
  generateReportHTML
    (run [SetValidationResults r; AddScreenshot "login" "data:,A" "t1"] constructor)
  = generateReportHTML
      (run [AddScreenshot "home" "data:,A" "t2"; SetPerformanceData report;
            SetValidationResults r] constructor).
Proof.
  intros r report.
  apply document_ignores_performance_data; reflexivity.
Defined.

End HTMLReportGeneratorProofs.
